(** * Session gating of the quiz front end

    A shallow embedding of [src/utils/auth.js] (the four helpers over
    [localStorage]) and of [src/components/ProtectedRoute.js] (the route
    guard), together with the two pieces of the browser they talk to: the
    Web Storage area, with the room the browser gives it, and the session
    history; and of the contact service, a client of [./api]. *)

From stdpp Require Import gmap strings pretty fin_maps.

Open Scope string_scope.

(** ** Completions

    A JavaScript call either returns or throws.  What is thrown here is
    the [TypeError] of a value that has no string conversion, the
    [QuotaExceededError] of a write the storage area has no room for, or
    whatever an object's own conversion code throws, named by a tag. *)

Inductive JsError : Type :=
| TypeError
| QuotaExceededError
| Raised (what : string).

Inductive Completion (A : Type) : Type :=
| Normal (a : A)
| Throw (e : JsError).

Arguments Normal {A} a.
Arguments Throw {A} e.

(** ** JavaScript values

    [setAuthToken] has an untyped parameter, so a caller may pass any
    value.  The storage only ever converts the value to a string, so a
    Number is given by the string that Number::toString yields for it
    (["42"], ["0.5"], ["1e+21"], ["NaN"]) and no rendering of floating
    point numbers is computed here; a BigInt prints as its digits.  An
    object is given by what converting it to a string comes to: a string,
    or a throw of its own.  A conversion is the caller's code; it is taken
    not to use [localStorage] itself. *)

Inductive JsValue : Type :=
| JsUndefined
| JsNull
| JsBoolean (b : bool)
| JsNumber (rendering : string)
| JsBigInt (n : Z)
| JsString (s : string)
| JsSymbol (description : string)
| JsObject (conversion : Completion string).

(** The abstract operation ToString, which [Storage.setItem] applies to
    its value argument (a DOMString parameter). *)
Definition ToString (v : JsValue) : Completion string :=
  match v with
  | JsUndefined => Normal "undefined"
  | JsNull => Normal "null"
  | JsBoolean true => Normal "true"
  | JsBoolean false => Normal "false"
  | JsNumber rendering => Normal rendering
  | JsBigInt n => Normal (pretty n)
  | JsString s => Normal s
  | JsSymbol _ => Throw TypeError
  | JsObject conversion => conversion
  end.

(** ** The storage area and the monad of code that uses it

    [localStorage] is one mutable map from string keys to string values,
    shared by every caller.  A computation takes the current area and
    gives back a completion and the area it leaves behind; a throw keeps
    whatever was written before it. *)

Abbreviation Storage := (gmap string string).

(** How much an area may hold is up to the browser: [fits] says whether
    it lets an area with the given content be stored. *)
Class Browser : Type := MkBrowser {
  fits : Storage → bool
}.

(** The usual policy counts the characters of all keys and values and
    allows [limit] of them. *)
Definition used (ls : Storage) : N :=
  map_fold (λ key value total,
              (N.of_nat (String.length key) + N.of_nat (String.length value) + total)%N)
           0%N ls.

Definition character_quota (limit : N) : Browser :=
  {| fits := λ ls, (used ls <=? limit)%N |}.

(** Five mebi-characters, the customary allowance, and a tiny allowance
    on which a full area can be written out. *)
Definition customary : Browser := character_quota 5242880.
Definition cramped : Browser := character_quota 16.

Definition JS (A : Type) : Type := Storage → Completion A * Storage.

Definition ret {A : Type} (a : A) : JS A := λ ls, (Normal a, ls).

Definition bind {A B : Type} (m : JS A) (k : A → JS B) : JS B := λ ls,
  match m ls with
  | (Normal a, ls') => k a ls'
  | (Throw e, ls') => (Throw e, ls')
  end.

Notation "'let*' x := m 'in' k" := (bind m (λ x, k))
  (at level 10, x name, m at level 100, k at level 200, only parsing).

Definition result {A : Type} (m : JS A) (ls : Storage) : Completion A := (m ls).1.
Definition after {A : Type} (m : JS A) (ls : Storage) : Storage := (m ls).2.

(** *** [localStorage.getItem], [setItem], [removeItem] *)

Definition getItem (key : string) : JS (option string) := λ ls,
  (Normal (ls !! key), ls).

(** [setItem] converts the value first; the write then happens only if
    the browser has room for the area it would leave, and otherwise
    throws with the area as it was. *)
Definition setItem {browser : Browser} (key : string) (value : JsValue) : JS unit := λ ls,
  match ToString value with
  | Normal s =>
      if fits (<[key := s]> ls)
      then (Normal tt, <[key := s]> ls)
      else (Throw QuotaExceededError, ls)
  | Throw e => (Throw e, ls)
  end.

Definition removeItem (key : string) : JS unit := λ ls,
  (Normal tt, delete key ls).

(** [item !== null] on the result of [getItem], where [None] is [null]. *)
Definition strict_ne_null (item : option string) : bool :=
  match item with
  | Some _ => true
  | None => false
  end.

(** ** [src/utils/auth.js] *)

Module Auth.

Definition isAuthenticated : JS bool :=
    let* item := getItem "authToken" in
    ret (strict_ne_null item).

Definition setAuthToken {browser : Browser} (token : JsValue) : JS unit :=
    setItem "authToken" token.

Definition removeAuthToken : JS unit :=
    removeItem "authToken".

Definition getAuthToken : JS (option string) :=
    getItem "authToken".

End Auth.

Import Auth.

(** ** [src/components/ProtectedRoute.js]

    The component returns one of two things: the element
    [<Navigate to="/login" replace />] that it builds itself, or the
    [children] object it was handed.  The element it builds is a new
    object, never the caller's, so the two [return] statements are the
    two constructors of the result. *)

Record NavigateProps : Type := MkNavigateProps {
  to : string;
  replace : bool
}.

Inductive Rendered (View : Type) : Type :=
| Navigate (props : NavigateProps)
| Children (children : View).

Arguments Navigate {View} props.
Arguments Children {View} children.

Definition ProtectedRoute {View : Type} (children : View) : JS (Rendered View) :=
  let* authenticated := isAuthenticated in
  if negb authenticated
  then ret (Navigate {| to := "/login"; replace := true |})
  else ret (Children children).

(** ** Session history

    What [<Navigate>] does once it is rendered: it calls the router's
    [navigate(to, {replace})], which ends in [history.replaceState] when
    [replace] is set and in [history.pushState] otherwise.  The session
    history is the entry being shown, the entries behind it (nearest
    first) and the entries ahead of it. *)

Record History : Type := MkHistory {
  behind : list string;
  current : string;
  ahead : list string
}.

Definition pushState (url : string) (h : History) : History :=
  {| behind := current h :: behind h; current := url; ahead := [] |}.

Definition replaceState (url : string) (h : History) : History :=
  {| behind := behind h; current := url; ahead := ahead h |}.

Definition back (h : History) : History :=
  match behind h with
  | [] => h
  | previous :: older =>
      {| behind := older; current := previous; ahead := current h :: ahead h |}
  end.

Definition navigate (props : NavigateProps) (h : History) : History :=
  if replace props then replaceState (to props) h else pushState (to props) h.

(** Two histories show the same thing, now and on every press of the
    back button, when they agree on the current entry and on what lies
    behind it. *)
Definition same_view (h1 h2 : History) : Prop :=
  behind h1 = behind h2 ∧ current h1 = current h2.

(** Rendering what the guard returned: a [<Navigate>] element navigates,
    the children leave the history alone. *)
Definition commit {View : Type} (r : Rendered View) (h : History) : History :=
  match r with
  | Navigate props => navigate props h
  | Children _ => h
  end.

(** One evaluation of a guarded route shown at the current entry. *)
Definition visit {View : Type} (children : View) (ls : Storage) (h : History) : History :=
  match result (ProtectedRoute children) ls with
  | Normal r => commit r h
  | Throw _ => h
  end.

(** ** Sequences of calls to the helpers

    A client of [auth.js] can do nothing but call its four exports, in any
    order, with any arguments; a call that throws leaves the area as it
    was at the throw and the next call goes on from there. *)

Inductive Call : Type :=
| CallIsAuthenticated
| CallSetAuthToken (token : JsValue)
| CallRemoveAuthToken
| CallGetAuthToken.

Definition call {browser : Browser} (c : Call) (ls : Storage) : Storage :=
  match c with
  | CallIsAuthenticated => after isAuthenticated ls
  | CallSetAuthToken token => after (setAuthToken token) ls
  | CallRemoveAuthToken => after removeAuthToken ls
  | CallGetAuthToken => after getAuthToken ls
  end.

Fixpoint calls {browser : Browser} (cs : list Call) (ls : Storage) : Storage :=
  match cs with
  | [] => ls
  | c :: rest => calls rest (call c ls)
  end.

(** *** What a sequence of calls comes to

    Of the four calls only a [removeAuthToken] and a [setAuthToken] whose
    argument converts to a string that the area has room for write
    anything.  [effect_of] tells what a call would write to the area
    [ls], [last_effect] picks the last call of a sequence that would write
    to [ls], and [apply_effect] performs that write alone. *)

Inductive Effect : Type :=
| Stored (s : string)
| Cleared.

Definition effect_of {browser : Browser} (ls : Storage) (c : Call) : option Effect :=
  match c with
  | CallSetAuthToken token =>
      match ToString token with
      | Normal s => if fits (<["authToken" := s]> ls) then Some (Stored s) else None
      | Throw _ => None
      end
  | CallRemoveAuthToken => Some Cleared
  | CallIsAuthenticated | CallGetAuthToken => None
  end.

Fixpoint last_effect {browser : Browser} (ls : Storage) (cs : list Call) : option Effect :=
  match cs with
  | [] => None
  | c :: rest =>
      match last_effect ls rest with
      | Some e => Some e
      | None => effect_of ls c
      end
  end.

Definition apply_effect (e : option Effect) (ls : Storage) : Storage :=
  match e with
  | None => ls
  | Some (Stored s) => <["authToken" := s]> ls
  | Some Cleared => delete "authToken" ls
  end.

(** ** The contact service ([contactService], a client of [./api])

    Two [async] methods, each one request inside [try]/[catch].  The
    values that flow through them are response and error objects, so they
    are modelled with their properties: an object is its list of own data
    properties (no getters), a number is an integer-valued one. *)

Module ContactService.

#[warnings="-register-all"] Inductive Val : Type :=
| VUndefined
| VNull
| VBool (b : bool)
| VNum (n : Z)
| VStr (s : string)
| VObj (fields : list (string * Val)).

(** A settled promise, and the completion of a block of statements. *)
Inductive Settled : Type :=
| Fulfilled (v : Val)
| Rejected (reason : Val).

Inductive Outcome (A : Type) : Type :=
| Returned (a : A)
| Thrown (e : Val).

Arguments Returned {A} a.
Arguments Thrown {A} e.

Definition obind {A B : Type} (m : Outcome A) (k : A → Outcome B) : Outcome B :=
  match m with
  | Returned a => k a
  | Thrown e => Thrown e
  end.

Notation "'let?' x := m 'in' k" := (obind m (λ x, k))
  (at level 10, x name, m at level 100, k at level 200, only parsing).

(** [try { body } catch (error) { handler }] *)
Definition try_catch {A : Type} (body : Outcome A) (handler : Val → Outcome A) : Outcome A :=
  match body with
  | Returned a => Returned a
  | Thrown error => handler error
  end.

(** [await p] inside an [async] function, and the promise the function
    returns for its body. *)
Definition await (p : Settled) : Outcome Val :=
  match p with
  | Fulfilled v => Returned v
  | Rejected reason => Thrown reason
  end.

Definition async (body : Outcome Val) : Settled :=
  match body with
  | Returned v => Fulfilled v
  | Thrown e => Rejected e
  end.

(** ToBoolean, as [||] applies it. *)
Definition truthy (v : Val) : bool :=
  match v with
  | VUndefined | VNull => false
  | VBool b => b
  | VNum n => negb (n =? 0)%Z
  | VStr s => negb (String.eqb s "")
  | VObj _ => true
  end.

Definition nullish (v : Val) : bool :=
  match v with
  | VUndefined | VNull => true
  | _ => false
  end.

Fixpoint lookup_field (key : string) (fields : list (string * Val)) : Val :=
  match fields with
  | [] => VUndefined
  | (k, v) :: rest => if String.eqb k key then v else lookup_field key rest
  end.

(** The [TypeError] the engine makes when a property of [undefined] or
    [null] is read; only its [message] is ever looked at here. *)
Definition TypeErrorObject (message : string) : Val :=
  VObj [("message", VStr message)].

(** [apiClient] is imported from [./api], which is not part of the
    sources: its two methods are taken as given. *)
Record ApiClient : Type := MkApiClient {
  get : string → Settled;
  post : string → Val → Settled
}.

(** What [error.response?.data] and [error.message] give for an error
    that is neither [undefined] nor [null]. *)
Definition error_body (error : Val) : Val :=
  match error with
  | VObj fields =>
      match lookup_field "response" fields with
      | VObj response_fields => lookup_field "data" response_fields
      | _ => VUndefined
      end
  | _ => VUndefined
  end.

Definition error_message (error : Val) : Val :=
  match error with
  | VObj fields => lookup_field "message" fields
  | _ => VUndefined
  end.

Section Engine.

(** The wording of the engine's message differs from engine to engine. *)
Variable type_error_message : Val → string → string.

(** [v.key], for the keys [data], [response] and [message], none of which
    a primitive inherits. *)
Definition read (v : Val) (key : string) : Outcome Val :=
  match v with
  | VUndefined | VNull => Thrown (TypeErrorObject (type_error_message v key))
  | VObj fields => Returned (lookup_field key fields)
  | VBool _ | VNum _ | VStr _ => Returned VUndefined
  end.

(** [v?.key] *)
Definition read_optional (v : Val) (key : string) : Outcome Val :=
  if nullish v then Returned VUndefined else read v key.

Definition getContact (apiClient : ApiClient) : Settled :=
  async (try_catch
    (let? response := await (get apiClient "/contact") in
     read response "data")
    (λ error,
       let? response := read error "response" in
       let? data := read_optional response "data" in
       if truthy data then Thrown data
       else let? message := read error "message" in
            Thrown message)).

Definition submitContact (apiClient : ApiClient) (payload : Val) : Settled :=
  async (try_catch
    (let? response := await (post apiClient "/contact" payload) in
     read response "data")
    (λ error,
       let? response := read error "response" in
       let? data := read_optional response "data" in
       if truthy data then Thrown data
       else let? message := read error "message" in
            Thrown message)).

(** The [catch] block of both methods, on its own. *)
Definition handler (error : Val) : Outcome Val :=
  let? response := read error "response" in
  let? data := read_optional response "data" in
  if truthy data then Thrown data
  else let? message := read error "message" in
       Thrown message.

(** How a method's promise settles, case by case, given how its request
    settled: the table the two methods are compared with. *)
Definition settles_as (request : Settled) : Settled :=
  match request with
  | Fulfilled response =>
      match response with
      | VObj fields => Fulfilled (lookup_field "data" fields)
      | VBool _ | VNum _ | VStr _ => Fulfilled VUndefined
      | VUndefined | VNull => Rejected (VStr (type_error_message response "data"))
      end
  | Rejected error =>
      match error with
      | VUndefined | VNull =>
          Rejected (TypeErrorObject (type_error_message error "response"))
      | _ =>
          Rejected (if truthy (error_body error) then error_body error
                    else error_message error)
      end
  end.

End Engine.

End ContactService.

(** * Properties *)

Section Guard.

Context {View : Type}.
Implicit Types (ls : Storage) (children : View).

Lemma isAuthenticated_result ls :
  result isAuthenticated ls = Normal (strict_ne_null (ls !! "authToken")).
Proof. reflexivity. Qed.

Lemma isAuthenticated_after ls : after isAuthenticated ls = ls.
Proof. reflexivity. Qed.

Lemma ProtectedRoute_after children ls : after (ProtectedRoute children) ls = ls.
Proof.
  unfold after, ProtectedRoute, bind, isAuthenticated, getItem, ret; simpl.
  by destruct (ls !! "authToken").
Qed.

Lemma ProtectedRoute_result children ls :
  result (ProtectedRoute children) ls =
    match ls !! "authToken" with
    | None => Normal (Navigate {| to := "/login"; replace := true |})
    | Some _ => Normal (Children children)
    end.
Proof.
  unfold result, ProtectedRoute, bind, isAuthenticated, getItem, ret; simpl.
  by destruct (ls !! "authToken").
Qed.

End Guard.

(** ** The helpers, call by call *)

Section Helpers.

Context {browser : Browser}.
Implicit Types (ls : Storage) (token : JsValue) (s : string).

Lemma getAuthToken_result ls : result getAuthToken ls = Normal (ls !! "authToken").
Proof. reflexivity. Qed.

Lemma getAuthToken_after ls : after getAuthToken ls = ls.
Proof. reflexivity. Qed.

Lemma setAuthToken_converted token s ls :
  ToString token = Normal s →
  fits (<["authToken" := s]> ls) = true →
  setAuthToken token ls = (Normal tt, <["authToken" := s]> ls).
Proof. intros Hs Hfits. unfold setAuthToken, setItem. by rewrite Hs, Hfits. Qed.

Lemma setAuthToken_no_room token s ls :
  ToString token = Normal s →
  fits (<["authToken" := s]> ls) = false →
  setAuthToken token ls = (Throw QuotaExceededError, ls).
Proof. intros Hs Hfits. unfold setAuthToken, setItem. by rewrite Hs, Hfits. Qed.

Lemma setAuthToken_thrown token e ls :
  ToString token = Throw e → setAuthToken token ls = (Throw e, ls).
Proof. intros Hs. unfold setAuthToken, setItem. by rewrite Hs. Qed.

Lemma removeAuthToken_after ls : after removeAuthToken ls = delete "authToken" ls.
Proof. reflexivity. Qed.

Lemma removeAuthToken_result ls : result removeAuthToken ls = Normal tt.
Proof. reflexivity. Qed.

Lemma removed_absent ls : after removeAuthToken ls !! "authToken" = None.
Proof. rewrite removeAuthToken_after. apply lookup_delete_eq. Qed.

End Helpers.

(** ** The model on concrete inputs *)

Example ToString_null : ToString JsNull = Normal "null".
Proof. reflexivity. Qed.

Example ToString_bigint : ToString (JsBigInt (-42)) = Normal "-42".
Proof. vm_compute. reflexivity. Qed.

Example ToString_throwing_object :
  ToString (JsObject (Throw (Raised "boom"))) = Throw (Raised "boom").
Proof. reflexivity. Qed.

Example used_counts_keys_and_values :
  used {["quiz" := "answers-1234"]} = 16%N
  ∧ used (<["authToken" := "abc"]> {["quiz" := "answers-1234"]}) = 28%N.
Proof. split; vm_compute; reflexivity. Qed.

Example login_then_read :
  result (let* _ := setAuthToken (browser := customary) (JsString "demo-token") in
          getAuthToken) ∅
  = Normal (Some "demo-token").
Proof. vm_compute. reflexivity. Qed.

Example overwrite_keeps_one_entry :
  calls (browser := customary)
    [CallSetAuthToken (JsString "a"); CallSetAuthToken (JsString "b")] ∅
  = {["authToken" := "b"]}.
Proof. vm_compute. reflexivity. Qed.

Example throw_stops_the_sequence :
  (let* _ := setAuthToken (browser := customary) (JsSymbol "t") in
   setAuthToken (browser := customary) (JsString "b")) ∅
  = (Throw TypeError, ∅).
Proof. reflexivity. Qed.

Example no_room_on_a_full_area :
  fits (Browser := cramped) {["quiz" := "answers-1234"]} = true
  ∧ setAuthToken (browser := cramped) (JsString "abc") {["quiz" := "answers-1234"]}
    = (Throw QuotaExceededError, {["quiz" := "answers-1234"]}).
Proof. split; vm_compute; reflexivity. Qed.

Example shorter_token_still_fits :
  calls (browser := cramped)
    [CallSetAuthToken (JsString "abcdefg"); CallSetAuthToken (JsString "abcdefgh");
     CallSetAuthToken (JsString "xyz")] ∅
  = {["authToken" := "xyz"]}.
Proof. vm_compute. reflexivity. Qed.

Example guard_with_empty_string_token :
  result (ProtectedRoute "Profile") {["authToken" := ""]} = Normal (Children "Profile").
Proof. reflexivity. Qed.

Example push_would_keep_the_guarded_entry (h : History) (guarded : string) :
  current (back (pushState "/login" (pushState guarded h))) = guarded.
Proof. reflexivity. Qed.

Example back_on_first_entry :
  back {| behind := []; current := "/login"; ahead := [] |}
  = {| behind := []; current := "/login"; ahead := [] |}.
Proof. reflexivity. Qed.

(** C1. With no token stored ([getAuthToken()] is [null]) the guard
    returns the element [<Navigate to="/login" replace />], whatever its
    children are, and so does not return the children. *)
Theorem no_token_implies_redirect {View : Type} (children : View) (ls : Storage) :
  result getAuthToken ls = Normal None →
  result (ProtectedRoute children) ls
    = Normal (Navigate {| to := "/login"; replace := true |})
  ∧ result (ProtectedRoute children) ls ≠ Normal (Children children).
Proof.
  rewrite getAuthToken_result, ProtectedRoute_result.
  intros [= ->]. split; [reflexivity | discriminate].
Qed.

Lemma no_token_implies_redirect_witness :
  result getAuthToken ∅ = Normal None
  ∧ result (ProtectedRoute "Dashboard") ∅
      = Normal (Navigate {| to := "/login"; replace := true |})
  ∧ result (ProtectedRoute "Dashboard") ∅ ≠ Normal (Children "Dashboard").
Proof.
  split; [reflexivity |].
  apply (no_token_implies_redirect "Dashboard" ∅). reflexivity.
Defined.

(** C2. With any string at all stored under the key, the empty string
    included, the guard returns its children as they were handed in,
    returns no [<Navigate>] element, and leaves the storage area alone:
    the token's characters are never looked at. *)
Theorem token_present_implies_render {View : Type} (children : View)
    (ls : Storage) (token : string) :
  result getAuthToken ls = Normal (Some token) →
  result (ProtectedRoute children) ls = Normal (Children children)
  ∧ (∀ props, result (ProtectedRoute children) ls ≠ Normal (Navigate props))
  ∧ after (ProtectedRoute children) ls = ls.
Proof.
  rewrite getAuthToken_result, ProtectedRoute_result, ProtectedRoute_after.
  intros [= ->]. split_and!; [reflexivity | discriminate | reflexivity].
Qed.

Lemma token_present_implies_render_witness :
  result getAuthToken {["authToken" := ""]} = Normal (Some "")
  ∧ result (ProtectedRoute "Dashboard") {["authToken" := ""]}
      = Normal (Children "Dashboard")
  ∧ (∀ props, result (ProtectedRoute "Dashboard") {["authToken" := ""]}
               ≠ Normal (Navigate props))
  ∧ after (ProtectedRoute "Dashboard") {["authToken" := ""]} = {["authToken" := ""]}.
Proof.
  split; [reflexivity |].
  apply (token_present_implies_render "Dashboard" {["authToken" := ""]} "").
  reflexivity.
Defined.

(** C4. [isAuthenticated()] answers [true] exactly when [getAuthToken()]
    is not [null] and [false] exactly when it is; it never throws, writes
    nothing, and gives the same answer for any two stored values. *)
Theorem isAuthenticated_iff_token_present (ls : Storage) :
  (result isAuthenticated ls = Normal true ↔ result getAuthToken ls ≠ Normal None)
  ∧ (result isAuthenticated ls = Normal false ↔ result getAuthToken ls = Normal None)
  ∧ after isAuthenticated ls = ls
  ∧ (∀ t1 t2 : string,
       result isAuthenticated (<["authToken" := t1]> ls)
       = result isAuthenticated (<["authToken" := t2]> ls)).
Proof.
  rewrite isAuthenticated_result, getAuthToken_result, isAuthenticated_after.
  split_and!.
  - destruct (ls !! "authToken"); simpl; split; congruence.
  - destruct (ls !! "authToken"); simpl; split; congruence.
  - reflexivity.
  - intros t1 t2. rewrite !isAuthenticated_result, !lookup_insert_eq. reflexivity.
Qed.

(** C5, as the claim states it, fails: on an area that is full the write
    throws a [QuotaExceededError] and stores nothing, so
    [setAuthToken("abc")] does not return, and afterwards
    [getAuthToken()] is still [null] and [isAuthenticated()] false. *)
Lemma write_then_read_full_area :
  fits (Browser := cramped) {["quiz" := "answers-1234"]} = true
  ∧ result (let* _ := setAuthToken (browser := cramped) (JsString "abc") in
            let* token := getAuthToken in
            let* authenticated := isAuthenticated in
            ret (token, authenticated)) {["quiz" := "answers-1234"]}
    = Throw QuotaExceededError
  ∧ result getAuthToken
      (after (setAuthToken (browser := cramped) (JsString "abc"))
             {["quiz" := "answers-1234"]})
    = Normal None
  ∧ result isAuthenticated
      (after (setAuthToken (browser := cramped) (JsString "abc"))
             {["quiz" := "answers-1234"]})
    = Normal false
  ∧ ¬ (∀ (browser : Browser) (ls : Storage),
         result (let* _ := setAuthToken (JsString "abc") in
                 let* token := getAuthToken in
                 let* authenticated := isAuthenticated in
                 ret (token, authenticated)) ls
         = Normal (Some "abc", true)).
Proof.
  split_and!; try (vm_compute; reflexivity).
  intros Hall. specialize (Hall cramped {["quiz" := "answers-1234"]}).
  vm_compute in Hall. discriminate Hall.
Qed.

(** C5, amended. From any storage area that has room for ["abc"] under
    ["authToken"], [setAuthToken("abc")] followed at once by
    [getAuthToken()] and [isAuthenticated()] returns normally with
    ["abc"] and [true]; the same holds for every other string the area
    has room for, so the written value is not validated. *)
Theorem write_then_read {browser : Browser} (ls : Storage) :
  fits (<["authToken" := "abc"]> ls) = true →
  result (let* _ := setAuthToken (JsString "abc") in
          let* token := getAuthToken in
          let* authenticated := isAuthenticated in
          ret (token, authenticated)) ls
  = Normal (Some "abc", true)
  ∧ (∀ s : string,
       fits (<["authToken" := s]> ls) = true →
       result (let* _ := setAuthToken (JsString s) in
               let* token := getAuthToken in
               let* authenticated := isAuthenticated in
               ret (token, authenticated)) ls
       = Normal (Some s, true)).
Proof.
  assert (∀ s : string,
    fits (<["authToken" := s]> ls) = true →
    result (let* _ := setAuthToken (JsString s) in
            let* token := getAuthToken in
            let* authenticated := isAuthenticated in
            ret (token, authenticated)) ls
    = Normal (Some s, true)) as Hall.
  { intros s Hfits. unfold result, bind, isAuthenticated, bind.
    rewrite (setAuthToken_converted (JsString s) s) by done.
    unfold getAuthToken, getItem, ret; simpl.
    by rewrite lookup_insert_eq. }
  intros Hfits. split; [by apply Hall | exact Hall].
Qed.

Lemma write_then_read_witness :
  fits (Browser := customary) (<["authToken" := "abc"]> {["quiz" := "answers-1234"]})
  = true
  ∧ result (let* _ := setAuthToken (browser := customary) (JsString "abc") in
            let* token := getAuthToken in
            let* authenticated := isAuthenticated in
            ret (token, authenticated)) {["quiz" := "answers-1234"]}
    = Normal (Some "abc", true).
Proof.
  assert (fits (Browser := customary)
            (<["authToken" := "abc"]> {["quiz" := "answers-1234"]}) = true)
    as Hfits by (vm_compute; reflexivity).
  split; [exact Hfits |].
  exact (proj1 (write_then_read (browser := customary)
                  {["quiz" := "answers-1234"]} Hfits)).
Defined.

(** C6. From any storage area, [removeAuthToken()] called twice returns
    normally both times with [isAuthenticated()] false after each call;
    the second call changes nothing, and on any area whose slot is
    already empty the call returns normally and leaves the area as it
    was. *)
Theorem removeAuthToken_idempotent (ls : Storage) :
  result (let* _ := removeAuthToken in
          let* first := isAuthenticated in
          let* _ := removeAuthToken in
          let* second := isAuthenticated in
          ret (first, second)) ls
  = Normal (false, false)
  ∧ after removeAuthToken (after removeAuthToken ls) = after removeAuthToken ls
  ∧ (result getAuthToken ls = Normal None → removeAuthToken ls = (Normal tt, ls)).
Proof.
  split_and!.
  - unfold result, bind, isAuthenticated, bind, removeAuthToken, removeItem,
      getItem, ret; simpl.
    by rewrite !lookup_delete_eq.
  - rewrite !removeAuthToken_after. apply delete_delete_eq.
  - rewrite getAuthToken_result. intros [= Hnone].
    unfold removeAuthToken, removeItem. by rewrite delete_id.
Qed.

(** C7, as the claim states it, fails: on an area that is full
    [setAuthToken("tok1")] throws a [QuotaExceededError], the sequence
    stops there, and [isAuthenticated()] is false after the call, not
    true. *)
Lemma end_to_end_full_area :
  fits (Browser := cramped) {["quiz" := "answers-1234"]} = true
  ∧ result (let* _ := setAuthToken (browser := cramped) (JsString "tok1") in
            let* before := isAuthenticated in
            let* _ := removeAuthToken in
            let* afterwards := isAuthenticated in
            let* rendered := ProtectedRoute "Profile" in
            ret (before, afterwards, rendered)) {["quiz" := "answers-1234"]}
    = Throw QuotaExceededError
  ∧ result isAuthenticated
      (call (browser := cramped) (CallSetAuthToken (JsString "tok1"))
            {["quiz" := "answers-1234"]})
    = Normal false
  ∧ ¬ (∀ (browser : Browser) (ls : Storage),
         result (let* _ := setAuthToken (JsString "tok1") in isAuthenticated) ls
         = Normal true).
Proof.
  split_and!; try (vm_compute; reflexivity).
  intros Hall. specialize (Hall cramped {["quiz" := "answers-1234"]}).
  vm_compute in Hall. discriminate Hall.
Qed.

(** C7, amended. From any storage area that has room for ["tok1"] under
    ["authToken"]: [setAuthToken("tok1")], then [isAuthenticated()] is
    [true]; then [removeAuthToken()], then [isAuthenticated()] is [false]
    and the guard, evaluated for any children at a history entry such as
    [/profile], returns [<Navigate to="/login" replace />] and the entry
    shown becomes [/login]. *)
Theorem end_to_end {browser : Browser} {View : Type} (children : View)
    (ls : Storage) (h : History) :
  fits (<["authToken" := "tok1"]> ls) = true →
  result (let* _ := setAuthToken (JsString "tok1") in
          let* before := isAuthenticated in
          let* _ := removeAuthToken in
          let* afterwards := isAuthenticated in
          let* rendered := ProtectedRoute children in
          ret (before, afterwards, rendered)) ls
  = Normal (true, false, Navigate {| to := "/login"; replace := true |})
  ∧ current (visit children
               (after (let* _ := setAuthToken (JsString "tok1") in removeAuthToken) ls)
               (pushState "/profile" h))
    = "/login".
Proof.
  intros Hfits. split.
  - unfold result, bind at 1.
    rewrite (setAuthToken_converted (JsString "tok1") "tok1") by done.
    unfold ProtectedRoute, bind, isAuthenticated, bind, removeAuthToken,
      removeItem, getItem, ret; simpl.
    by rewrite lookup_insert_eq, lookup_delete_eq.
  - unfold visit. rewrite ProtectedRoute_result.
    unfold after, bind.
    rewrite (setAuthToken_converted (JsString "tok1") "tok1") by done.
    unfold removeAuthToken, removeItem; simpl.
    by rewrite lookup_delete_eq.
Qed.

Lemma end_to_end_witness :
  fits (Browser := customary) (<["authToken" := "tok1"]> ∅) = true
  ∧ result (let* _ := setAuthToken (browser := customary) (JsString "tok1") in
            let* before := isAuthenticated in
            let* _ := removeAuthToken in
            let* afterwards := isAuthenticated in
            let* rendered := ProtectedRoute "Profile" in
            ret (before, afterwards, rendered)) ∅
    = Normal (true, false, Navigate {| to := "/login"; replace := true |}).
Proof.
  assert (fits (Browser := customary) (<["authToken" := "tok1"]> ∅) = true)
    as Hfits by (vm_compute; reflexivity).
  split; [exact Hfits |].
  exact (proj1 (end_to_end (browser := customary) "Profile" ∅
                  {| behind := []; current := "/"; ahead := [] |} Hfits)).
Defined.

(** ** The redirect and the session history *)

Section BackNavigation.

Implicit Types (h : History) (n : nat).

Lemma back_same_view h1 h2 : same_view h1 h2 → same_view (back h1) (back h2).
Proof.
  destruct h1 as [b1 c1 a1], h2 as [b2 c2 a2].
  unfold same_view, back; simpl. intros [-> ->].
  by destruct b2.
Qed.

Lemma iter_back_same_view n h1 h2 :
  same_view h1 h2 → same_view (Nat.iter n back h1) (Nat.iter n back h2).
Proof.
  intros Hsame. induction n as [| n IH]; simpl; [done |].
  by apply back_same_view.
Qed.

Lemma back_entries_shrink h url :
  url ∈ current (back h) :: behind (back h) → url ∈ current h :: behind h.
Proof.
  destruct h as [b c a]. unfold back; simpl.
  destruct b as [| p older]; simpl; [done |].
  intros Hin. by apply list_elem_of_further.
Qed.

Lemma iter_back_entries n h url :
  url ∈ current (Nat.iter n back h) :: behind (Nat.iter n back h) →
  url ∈ current h :: behind h.
Proof.
  induction n as [| n IH]; simpl; [done |].
  intros Hin. by apply IH, back_entries_shrink.
Qed.

Lemma visit_without_token {View : Type} (children : View) (ls : Storage) h :
  ls !! "authToken" = None → visit children ls h = replaceState "/login" h.
Proof.
  intros Hnone. unfold visit. rewrite ProtectedRoute_result, Hnone. reflexivity.
Qed.

End BackNavigation.

(** C3. When the guard turns away an evaluation with no token, the
    navigation it asks for replaces the entry being shown and adds none:
    the entry becomes [/login], what lies behind and ahead of it is
    untouched, and the result differs from a push.  So after a user with
    no token has gone to a guarded location, pressing back any number of
    times shows what the same number of presses less one showed before
    going there; the guarded location is not among it unless it was there
    before. *)
Theorem redirect_replaces_history_entry {View : Type} (children : View)
    (ls : Storage) (h0 : History) (guarded : string) :
  result getAuthToken ls = Normal None →
  (∀ h, visit children ls h = replaceState "/login" h)
  ∧ current (visit children ls (pushState guarded h0)) = "/login"
  ∧ behind (visit children ls (pushState guarded h0)) = current h0 :: behind h0
  ∧ ahead (visit children ls (pushState guarded h0)) = []
  ∧ visit children ls (pushState guarded h0)
      ≠ pushState "/login" (pushState guarded h0)
  ∧ (∀ n, current (Nat.iter (S n) back (visit children ls (pushState guarded h0)))
          = current (Nat.iter n back h0))
  ∧ (guarded ≠ "/login" → guarded ∉ current h0 :: behind h0 →
     ∀ n, current (Nat.iter n back (visit children ls (pushState guarded h0)))
          ≠ guarded).
Proof.
  rewrite getAuthToken_result. intros [= Hnone].
  pose proof (λ h, visit_without_token children ls h Hnone) as Hvisit.
  rewrite Hvisit. split_and!; try done.
  - intros Heq. apply (f_equal (λ h, length (behind h))) in Heq.
    simpl in Heq. lia.
  - intros n. rewrite Nat.iter_succ_r.
    apply iter_back_same_view. by destruct h0.
  - intros Hlogin Hfresh n Heq.
    assert (guarded ∈ "/login" :: current h0 :: behind h0) as Hin.
    { apply (iter_back_entries n (replaceState "/login" (pushState guarded h0))).
      rewrite Heq. apply list_elem_of_here. }
    apply elem_of_cons in Hin as [? | ?]; done.
Qed.

Lemma redirect_replaces_history_entry_witness :
  result getAuthToken ∅ = Normal None
  ∧ current (visit "Dashboard" ∅
             (pushState "/dashboard" {| behind := []; current := "/"; ahead := [] |}))
  = "/login"
  ∧ current (back (visit "Dashboard" ∅
             (pushState "/dashboard" {| behind := []; current := "/"; ahead := [] |})))
  = "/".
Proof.
  pose proof (redirect_replaces_history_entry "Dashboard" ∅
                {| behind := []; current := "/"; ahead := [] |} "/dashboard"
                eq_refl) as (_ & Hcurrent & _ & _ & _ & Hback & _).
  split_and!; [reflexivity | exact Hcurrent | exact (Hback 0)].
Defined.

(** ** One slot *)

Section SingleSlot.

Context {browser : Browser}.
Implicit Types (ls : Storage) (c : Call) (cs : list Call) (key : string).

Lemma call_other_keys c ls key :
  key ≠ "authToken" → call c ls !! key = ls !! key.
Proof.
  intros Hkey. destruct c as [| token | |]; simpl; try done.
  - unfold after, setAuthToken, setItem.
    destruct (ToString token) as [s |]; simpl; [| done].
    destruct (fits (<["authToken" := s]> ls)); simpl; [| done].
    by rewrite lookup_insert_ne.
  - rewrite removeAuthToken_after. by rewrite lookup_delete_ne.
Qed.

Lemma calls_other_keys cs ls key :
  key ≠ "authToken" → calls cs ls !! key = ls !! key.
Proof.
  intros Hkey. revert ls. induction cs as [| c rest IH]; intros ls; simpl; [done |].
  rewrite IH. by apply call_other_keys.
Qed.

Lemma calls_rest_of_area cs ls :
  delete "authToken" (calls cs ls) = delete "authToken" ls.
Proof.
  apply map_eq. intros key.
  destruct (decide (key = "authToken")) as [-> | Hkey].
  - by rewrite !lookup_delete_eq.
  - rewrite !lookup_delete_ne by done. by apply calls_other_keys.
Qed.

Lemma size_le_delete (m : Storage) key : (size m ≤ S (size (delete key m)))%nat.
Proof.
  rewrite map_size_delete. destruct (m !! key); simpl; lia.
Qed.

End SingleSlot.

(** C8. Every call to the four helpers reads or writes the entry under
    ["authToken"] and no other: after any sequence of calls, with any
    arguments, every other key holds what it held before, no key other
    than ["authToken"] has been added, and the area holds at most one
    entry more than its other keys account for.  An area that starts
    empty never holds more than one entry, and that entry is the token. *)
Theorem single_token_slot {browser : Browser} (cs : list Call) (ls : Storage) :
  (∀ key, key ≠ "authToken" → calls cs ls !! key = ls !! key)
  ∧ dom (calls cs ls) ⊆ {["authToken"]} ∪ dom ls
  ∧ (size (calls cs ls) ≤ S (size (delete "authToken" ls)))%nat
  ∧ (size (calls cs ∅) ≤ 1)%nat
  ∧ dom (calls cs ∅) ⊆ {["authToken"]}.
Proof.
  assert (∀ ls', dom (calls cs ls') ⊆ {["authToken"]} ∪ dom ls') as Hdom.
  { intros ls' key Hin. apply elem_of_dom in Hin.
    destruct (decide (key = "authToken")) as [-> | Hkey]; [set_solver |].
    rewrite calls_other_keys in Hin by done.
    apply elem_of_union_r. by apply elem_of_dom. }
  assert (∀ ls', (size (calls cs ls') ≤ S (size (delete "authToken" ls')))%nat) as Hsize.
  { intros ls'. rewrite <- (calls_rest_of_area cs ls'). apply size_le_delete. }
  split_and!.
  - intros key Hkey. by apply calls_other_keys.
  - apply Hdom.
  - apply Hsize.
  - specialize (Hsize ∅). by rewrite delete_empty, map_size_empty in Hsize.
  - specialize (Hdom ∅). rewrite dom_empty_L in Hdom. set_solver.
Qed.

(** C9, as the claim states it, fails: a Symbol cannot be converted to a
    string, so [setAuthToken(Symbol("t"))] throws a [TypeError], writes
    nothing, and an area that was empty still has [isAuthenticated()]
    false. *)
Lemma setAuthToken_symbol_not_authenticated :
  result (setAuthToken (browser := customary) (JsSymbol "t")) ∅ = Throw TypeError
  ∧ after (setAuthToken (browser := customary) (JsSymbol "t")) ∅ = ∅
  ∧ result isAuthenticated
      (after (setAuthToken (browser := customary) (JsSymbol "t")) ∅)
    = Normal false
  ∧ ¬ (∀ (browser : Browser) (token : JsValue) (ls : Storage),
         result isAuthenticated (after (setAuthToken token) ls) = Normal true).
Proof.
  split_and!; try reflexivity.
  intros Hall. specialize (Hall customary (JsSymbol "t") ∅). discriminate Hall.
Qed.

(** C9, amended. Calling [setAuthToken] with any argument that converts
    to a string ([null] and [undefined] among them, which become ["null"]
    and ["undefined"]), on an area that has room for that string, returns
    normally, stores the string under ["authToken"], and leaves
    [getAuthToken()] non-null and [isAuthenticated()] true. *)
Theorem setAuthToken_converted_authenticated {browser : Browser}
    (token : JsValue) (s : string) (ls : Storage) :
  ToString token = Normal s →
  fits (<["authToken" := s]> ls) = true →
  result (setAuthToken token) ls = Normal tt
  ∧ after (setAuthToken token) ls = <["authToken" := s]> ls
  ∧ result getAuthToken (after (setAuthToken token) ls) = Normal (Some s)
  ∧ result isAuthenticated (after (setAuthToken token) ls) = Normal true.
Proof.
  intros Hs Hfits. unfold result, after.
  rewrite (setAuthToken_converted token s ls Hs Hfits); simpl.
  unfold isAuthenticated, bind, getAuthToken, getItem, ret; simpl.
  by rewrite lookup_insert_eq.
Qed.

Lemma setAuthToken_converted_authenticated_witness :
  ToString JsNull = Normal "null"
  ∧ fits (Browser := customary) (<["authToken" := "null"]> ∅) = true
  ∧ result (setAuthToken (browser := customary) JsNull) ∅ = Normal tt
  ∧ after (setAuthToken (browser := customary) JsNull) ∅ = <["authToken" := "null"]> ∅
  ∧ result getAuthToken (after (setAuthToken (browser := customary) JsNull) ∅)
    = Normal (Some "null")
  ∧ result isAuthenticated (after (setAuthToken (browser := customary) JsNull) ∅)
    = Normal true.
Proof.
  assert (fits (Browser := customary) (<["authToken" := "null"]> ∅) = true)
    as Hfits by (vm_compute; reflexivity).
  split; [reflexivity |]. split; [exact Hfits |].
  exact (setAuthToken_converted_authenticated (browser := customary)
           JsNull "null" ∅ eq_refl Hfits).
Defined.

(** C10. For the same children, two storage areas that agree on whether
    [getAuthToken()] is [null] make the guard return the same thing: the
    stored value itself never reaches the guard's result. *)
Theorem guard_independent_of_token_value {View : Type} (children : View)
    (ls1 ls2 : Storage) :
  (result getAuthToken ls1 = Normal None ↔ result getAuthToken ls2 = Normal None) →
  result (ProtectedRoute children) ls1 = result (ProtectedRoute children) ls2.
Proof.
  rewrite !getAuthToken_result, !ProtectedRoute_result.
  intros Hagree.
  destruct (ls1 !! "authToken") as [t1 |], (ls2 !! "authToken") as [t2 |];
    try reflexivity.
  - destruct Hagree as [_ Habsent]. by specialize (Habsent eq_refl).
  - destruct Hagree as [Habsent _]. by specialize (Habsent eq_refl).
Qed.

Lemma guard_independent_of_token_value_witness :
  (result getAuthToken {["authToken" := "tok1"]} = Normal None
   ↔ result getAuthToken {["authToken" := "another.token"]} = Normal None)
  ∧ result (ProtectedRoute "Dashboard") {["authToken" := "tok1"]}
    = result (ProtectedRoute "Dashboard") {["authToken" := "another.token"]}.
Proof.
  assert (result getAuthToken {["authToken" := "tok1"]} = Normal None
          ↔ result getAuthToken {["authToken" := "another.token"]} = Normal None)
    as Hagree.
  { split; intros Habsent; vm_compute in Habsent; discriminate Habsent. }
  split; [exact Hagree |].
  exact (guard_independent_of_token_value "Dashboard" _ _ Hagree).
Defined.

(** ** Sequences of calls *)

Section LastEffect.

Context {browser : Browser}.
Implicit Types (ls : Storage) (c : Call) (cs : list Call) (e : Effect).

Lemma call_effect c ls : call c ls = apply_effect (effect_of ls c) ls.
Proof.
  destruct c as [| token | |]; simpl; try reflexivity.
  unfold after, setAuthToken, setItem.
  destruct (ToString token) as [s |]; [| reflexivity].
  by destruct (fits (<["authToken" := s]> ls)).
Qed.

Lemma apply_effect_overrides e (o : option Effect) ls :
  apply_effect (Some e) (apply_effect o ls) = apply_effect (Some e) ls.
Proof.
  destruct e as [s |], o as [[s' |] |]; simpl; try reflexivity.
  - apply insert_insert_eq.
  - apply insert_delete_eq.
  - apply delete_insert_eq.
  - apply delete_delete_eq.
Qed.

Lemma apply_effect_authToken (o : option Effect) ls :
  apply_effect o ls !! "authToken"
  = match o with
    | Some (Stored s) => Some s
    | Some Cleared => None
    | None => ls !! "authToken"
    end.
Proof.
  destruct o as [[s |] |]; simpl.
  - apply lookup_insert_eq.
  - apply lookup_delete_eq.
  - reflexivity.
Qed.

(** Whether a write has room does not depend on the token it replaces. *)
Lemma effect_of_apply_effect (o : option Effect) ls c :
  effect_of (apply_effect o ls) c = effect_of ls c.
Proof.
  destruct c as [| token | |]; simpl; try reflexivity.
  destruct (ToString token) as [s |]; [| reflexivity].
  pose proof (apply_effect_overrides (Stored s) o ls) as Hsame.
  simpl in Hsame. by rewrite Hsame.
Qed.

Lemma last_effect_apply_effect (o : option Effect) ls cs :
  last_effect (apply_effect o ls) cs = last_effect ls cs.
Proof.
  induction cs as [| c rest IH]; simpl; [reflexivity |].
  by rewrite IH, effect_of_apply_effect.
Qed.

Lemma calls_apply_last_effect cs ls : calls cs ls = apply_effect (last_effect ls cs) ls.
Proof.
  revert ls. induction cs as [| c rest IH]; intros ls; simpl; [reflexivity |].
  rewrite IH, call_effect, last_effect_apply_effect.
  destruct (last_effect ls rest) as [e |].
  - apply apply_effect_overrides.
  - reflexivity.
Qed.

Lemma last_effect_app ls cs cs' :
  last_effect ls (cs ++ cs')
  = match last_effect ls cs' with
    | Some e => Some e
    | None => last_effect ls cs
    end.
Proof.
  induction cs as [| c rest IH]; simpl.
  - by destruct (last_effect ls cs').
  - rewrite IH. by destruct (last_effect ls cs').
Qed.

End LastEffect.

(** X1. A sequence of calls to the four helpers, from any storage area,
    leaves exactly what its last writing call alone would leave.  A call
    writes when it is a [removeAuthToken], or a [setAuthToken] whose
    argument converts to a string that the starting area has room for
    under ["authToken"]: whether it has room does not depend on the calls
    made before.  Reads, conversions that throw and writes without room
    count for nothing; a sequence without a writing call leaves the area
    as it was, and whatever was called earlier is forgotten as soon as a
    later sequence writes. *)
Theorem calls_come_to_last_effect {browser : Browser} (cs : list Call) (ls : Storage) :
  calls cs ls = apply_effect (last_effect ls cs) ls
  ∧ (last_effect ls cs = None → calls cs ls = ls)
  ∧ (∀ earlier, last_effect ls cs ≠ None → calls (earlier ++ cs) ls = calls cs ls).
Proof.
  split_and!.
  - apply calls_apply_last_effect.
  - intros Hnone. by rewrite calls_apply_last_effect, Hnone.
  - intros earlier Hsome.
    rewrite !calls_apply_last_effect, last_effect_app.
    by destruct (last_effect ls cs).
Qed.

(** X2. After any sequence of calls the guard's answer is read off the
    last writing call: children after a [setAuthToken] that stored
    something, the redirect to [/login] after a [removeAuthToken], and
    the answer for the starting area when nothing was written (no write
    at all, or only writes that threw). *)
Theorem guard_follows_last_effect {browser : Browser} {View : Type}
    (children : View) (cs : list Call) (ls : Storage) :
  result (ProtectedRoute children) (calls cs ls)
  = match last_effect ls cs with
    | Some (Stored _) => Normal (Children children)
    | Some Cleared => Normal (Navigate {| to := "/login"; replace := true |})
    | None => result (ProtectedRoute children) ls
    end.
Proof.
  rewrite calls_apply_last_effect, !ProtectedRoute_result, apply_effect_authToken.
  by destruct (last_effect ls cs) as [[s |] |].
Qed.

(** X3. Nothing stored under another key reaches the helpers or the
    guard: writing or removing any key other than ["authToken"] changes
    neither [getAuthToken()], nor [isAuthenticated()], nor what the guard
    returns. *)
Theorem other_keys_do_not_matter {View : Type} (children : View)
    (ls : Storage) (key value : string) :
  key ≠ "authToken" →
  result getAuthToken (<[key := value]> ls) = result getAuthToken ls
  ∧ result getAuthToken (delete key ls) = result getAuthToken ls
  ∧ result isAuthenticated (<[key := value]> ls) = result isAuthenticated ls
  ∧ result isAuthenticated (delete key ls) = result isAuthenticated ls
  ∧ result (ProtectedRoute children) (<[key := value]> ls)
    = result (ProtectedRoute children) ls
  ∧ result (ProtectedRoute children) (delete key ls)
    = result (ProtectedRoute children) ls.
Proof.
  intros Hkey.
  rewrite !getAuthToken_result, !isAuthenticated_result, !ProtectedRoute_result.
  rewrite lookup_insert_ne, lookup_delete_ne by done.
  by split_and!.
Qed.

Lemma other_keys_do_not_matter_witness :
  "theme" ≠ "authToken"
  ∧ result (ProtectedRoute "Dashboard") (<["theme" := "dark"]> ∅)
    = result (ProtectedRoute "Dashboard") ∅.
Proof.
  assert ("theme" ≠ "authToken") as Hkey by discriminate.
  split; [exact Hkey |].
  exact (proj1 (proj2 (proj2 (proj2 (proj2
    (other_keys_do_not_matter "Dashboard" ∅ "theme" "dark" Hkey)))))).
Defined.

(** X4. However often the guard is evaluated at an entry, and whatever
    the storage area holds, the session history gains no entry: what lies
    behind and ahead stays as it was, the entry shown is the original one
    or [/login], and a second evaluation changes nothing more. *)
Theorem guard_never_grows_history {View : Type} (children : View)
    (ls : Storage) (h : History) (n : nat) :
  behind (Nat.iter n (visit children ls) h) = behind h
  ∧ ahead (Nat.iter n (visit children ls) h) = ahead h
  ∧ (current (Nat.iter n (visit children ls) h) = current h
     ∨ current (Nat.iter n (visit children ls) h) = "/login")
  ∧ visit children ls (visit children ls h) = visit children ls h.
Proof.
  assert (∀ h', visit children ls h' = h'
                ∨ visit children ls h' = replaceState "/login" h') as Hstep.
  { intros h'. unfold visit. rewrite ProtectedRoute_result.
    destruct (ls !! "authToken"); [by left | by right]. }
  assert (∀ h', visit children ls (visit children ls h') = visit children ls h')
    as Hidem.
  { intros h'. unfold visit. rewrite ProtectedRoute_result.
    by destruct (ls !! "authToken"). }
  split_and!; [| | | apply Hidem].
  - induction n as [| n IH]; simpl; [reflexivity |].
    destruct (Hstep (Nat.iter n (visit children ls) h)) as [-> | ->]; done.
  - induction n as [| n IH]; simpl; [reflexivity |].
    destruct (Hstep (Nat.iter n (visit children ls) h)) as [-> | ->]; done.
  - induction n as [| n IH]; simpl; [by left |].
    destruct (Hstep (Nat.iter n (visit children ls) h)) as [-> | ->];
      [exact IH | by right].
Qed.

(** ** The contact service *)

Import ContactService.

Section ContactServiceFacts.

Variable type_error_message : Val → string → string.

Lemma handler_throws error : ∃ e, handler type_error_message error = Thrown e.
Proof.
  unfold handler.
  destruct error as [| | b | n | s | fields]; simpl; eauto.
  destruct (lookup_field "response" fields) as [| | b | n | s | response_fields];
    simpl; eauto.
  destruct (truthy (lookup_field "data" response_fields)); simpl; eauto.
Qed.

Lemma handler_closed_form error :
  nullish error = false →
  handler type_error_message error
  = Thrown (if truthy (error_body error) then error_body error
            else error_message error).
Proof.
  intros Hnullish. unfold handler.
  destruct error as [| | b | n | s | fields]; simpl in *; try done.
  destruct (lookup_field "response" fields) as [| | b | n | s | response_fields];
    simpl; try done.
  by destruct (truthy (lookup_field "data" response_fields)).
Qed.

Lemma getContact_unfold apiClient :
  getContact type_error_message apiClient
  = async (try_catch
      (let? response := await (get apiClient "/contact") in
       read type_error_message response "data") (handler type_error_message)).
Proof. reflexivity. Qed.

Lemma submitContact_unfold apiClient payload :
  submitContact type_error_message apiClient payload
  = async (try_catch
      (let? response := await (post apiClient "/contact" payload) in
       read type_error_message response "data") (handler type_error_message)).
Proof. reflexivity. Qed.

End ContactServiceFacts.

(** X5. [getContact] fulfils exactly when the request was fulfilled with
    a response whose [data] can be read, and then with that [data]
    ([undefined] when the response has none); in every other case the
    promise is rejected. *)
Theorem getContact_fulfils_iff (type_error_message : Val → string → string)
    (apiClient : ApiClient) (v : Val) :
  getContact type_error_message apiClient = Fulfilled v
  ↔ ∃ response, get apiClient "/contact" = Fulfilled response
                ∧ read type_error_message response "data" = Returned v.
Proof.
  rewrite getContact_unfold. split.
  - destruct (get apiClient "/contact") as [response | reason] eqn:Hget; simpl.
    + destruct (read type_error_message response "data") as [d | e] eqn:Hread;
        simpl.
      * intros [= ->]. by exists response.
      * destruct (handler_throws type_error_message e) as [e' ->]. discriminate.
    + destruct (handler_throws type_error_message reason) as [e' ->]. discriminate.
  - intros (response & -> & Hread); simpl. by rewrite Hread.
Qed.

(** X6. When the request is rejected with an error that is neither
    [undefined] nor [null], [getContact] is rejected with the error's
    [response.data] if that is truthy and with the error's [message]
    otherwise: a missing response, or a body that is an empty string, 0,
    [false] or [null], gives the message, and an error without a message
    gives [undefined]. *)
Theorem getContact_rejection_reason (type_error_message : Val → string → string)
    (apiClient : ApiClient) (error : Val) :
  get apiClient "/contact" = Rejected error →
  nullish error = false →
  getContact type_error_message apiClient
  = Rejected (if truthy (error_body error) then error_body error
              else error_message error).
Proof.
  intros Hget Hnullish. rewrite getContact_unfold, Hget; simpl.
  by rewrite handler_closed_form.
Qed.

Lemma getContact_rejection_reason_witness :
  getContact (λ _ _, "Cannot read properties")
    {| get := λ _, Rejected (VObj
         [("message", VStr "Request failed with status code 400");
          ("response", VObj [("status", VNum 400); ("data", VStr "")])]);
       post := λ _ _, Rejected VUndefined |}
  = Rejected (VStr "Request failed with status code 400").
Proof.
  exact (getContact_rejection_reason (λ _ _, "Cannot read properties")
           {| get := λ _, Rejected (VObj
                [("message", VStr "Request failed with status code 400");
                 ("response", VObj [("status", VNum 400); ("data", VStr "")])]);
              post := λ _ _, Rejected VUndefined |}
           _ eq_refl eq_refl).
Defined.

(** X7. When the request is rejected with a string, a number or a
    boolean, the reason is lost: [getContact] is rejected with
    [undefined]. *)
Theorem getContact_primitive_reason_lost (type_error_message : Val → string → string)
    (apiClient : ApiClient) (error : Val) :
  get apiClient "/contact" = Rejected error →
  (∃ b, error = VBool b) ∨ (∃ n, error = VNum n) ∨ (∃ s, error = VStr s) →
  getContact type_error_message apiClient = Rejected VUndefined.
Proof.
  intros Hget Hprimitive. rewrite getContact_unfold, Hget.
  by destruct Hprimitive as [[b ->] | [[n ->] | [s ->]]].
Qed.

Lemma getContact_primitive_reason_lost_witness :
  getContact (λ _ _, "Cannot read properties")
    {| get := λ _, Rejected (VStr "timeout"); post := λ _ _, Rejected VUndefined |}
  = Rejected VUndefined.
Proof.
  apply (getContact_primitive_reason_lost (λ _ _, "Cannot read properties")
           {| get := λ _, Rejected (VStr "timeout");
              post := λ _ _, Rejected VUndefined |}
           (VStr "timeout") eq_refl).
  right; right. by exists "timeout".
Defined.

(** X8. When the request is rejected with [undefined] or [null], the
    [catch] block itself throws on reading [error.response]:
    [getContact] is rejected with the engine's [TypeError], not with a
    body or a message. *)
Theorem getContact_nullish_reason (type_error_message : Val → string → string)
    (apiClient : ApiClient) (error : Val) :
  get apiClient "/contact" = Rejected error →
  nullish error = true →
  getContact type_error_message apiClient
  = Rejected (TypeErrorObject (type_error_message error "response")).
Proof.
  intros Hget Hnullish. rewrite getContact_unfold, Hget; simpl.
  by destruct error.
Qed.

Lemma getContact_nullish_reason_witness :
  getContact (λ _ key, "Cannot read properties of undefined: " ++ key)
    {| get := λ _, Rejected VUndefined; post := λ _ _, Rejected VUndefined |}
  = Rejected (TypeErrorObject "Cannot read properties of undefined: response").
Proof.
  exact (getContact_nullish_reason
           (λ _ key, "Cannot read properties of undefined: " ++ key)
           {| get := λ _, Rejected VUndefined; post := λ _ _, Rejected VUndefined |}
           VUndefined eq_refl eq_refl).
Defined.

(** X9. When the request is fulfilled with [undefined] or [null], reading
    [response.data] throws inside the [try], the method's own [catch]
    takes the [TypeError], and [getContact] is rejected with that error's
    message string. *)
Theorem getContact_nullish_response (type_error_message : Val → string → string)
    (apiClient : ApiClient) (response : Val) :
  get apiClient "/contact" = Fulfilled response →
  nullish response = true →
  getContact type_error_message apiClient
  = Rejected (VStr (type_error_message response "data")).
Proof.
  intros Hget Hnullish. rewrite getContact_unfold, Hget; simpl.
  by destruct response.
Qed.

Lemma getContact_nullish_response_witness :
  getContact (λ _ key, "Cannot read properties of null: " ++ key)
    {| get := λ _, Fulfilled VNull; post := λ _ _, Fulfilled VNull |}
  = Rejected (VStr "Cannot read properties of null: data").
Proof.
  exact (getContact_nullish_response
           (λ _ key, "Cannot read properties of null: " ++ key)
           {| get := λ _, Fulfilled VNull; post := λ _ _, Fulfilled VNull |}
           VNull eq_refl eq_refl).
Defined.

(** X10. However its post to [/contact] settles, [submitContact] settles
    by one table: the response's [data] when there is a response object,
    [undefined] for a primitive response, the engine's message string for
    a response that is [undefined] or [null], the engine's [TypeError]
    for such a rejection reason, and otherwise the error's truthy
    [response.data] or else its [message]. *)
Theorem submitContact_settles_as (type_error_message : Val → string → string)
    (apiClient : ApiClient) (payload : Val) :
  submitContact type_error_message apiClient payload
  = settles_as type_error_message (post apiClient "/contact" payload).
Proof.
  rewrite submitContact_unfold.
  destruct (post apiClient "/contact" payload) as [response | error]; simpl.
  - by destruct response.
  - destruct error as [| | b | n | s | fields]; try reflexivity.
    change (async (handler type_error_message (VObj fields))
            = Rejected (if truthy (error_body (VObj fields))
                        then error_body (VObj fields)
                        else error_message (VObj fields))).
    by rewrite handler_closed_form.
Qed.

(** ** Writes that fail *)

Section Room.

Implicit Types (ls : Storage) (key value s : string).

Lemma used_insert_fresh ls key value :
  ls !! key = None →
  used (<[key := value]> ls)
  = (N.of_nat (String.length key) + N.of_nat (String.length value) + used ls)%N.
Proof.
  intros Hfresh. unfold used.
  rewrite map_fold_insert_L; [reflexivity | | exact Hfresh].
  intros. lia.
Qed.

Lemma no_room_for_a_token ls s :
  ls !! "authToken" = None →
  (used ls < used (<["authToken" := s]> ls))%N.
Proof.
  intros Hfresh. rewrite used_insert_fresh by done.
  change (String.length "authToken") with 9%nat. lia.
Qed.

End Room.



(** X13. Under a quota on the characters of keys and values, of whatever
    size, an area that is full and holds no token cannot be logged into:
    [setAuthToken] throws a [QuotaExceededError] for every string, the
    empty one included, because the key alone needs room, and
    [isAuthenticated()] stays false. *)
Theorem full_area_rejects_every_token (limit : N) (ls : Storage) (s : string) :
  used ls = limit →
  ls !! "authToken" = None →
  setAuthToken (browser := character_quota limit) (JsString s) ls
  = (Throw QuotaExceededError, ls)
  ∧ result isAuthenticated
      (after (setAuthToken (browser := character_quota limit) (JsString s)) ls)
    = Normal false.
Proof.
  intros Hfull Hfresh.
  assert (setAuthToken (browser := character_quota limit) (JsString s) ls
          = (Throw QuotaExceededError, ls)) as Hthrow.
  { apply (setAuthToken_no_room (browser := character_quota limit) _ s);
      [reflexivity |].
    pose proof (no_room_for_a_token ls s Hfresh) as Hgrows.
    unfold fits, character_quota. apply N.leb_gt. lia. }
  split; [exact Hthrow |].
  unfold after. rewrite Hthrow; simpl.
  by rewrite isAuthenticated_result, Hfresh.
Qed.

Lemma full_area_rejects_every_token_witness :
  used {["quiz" := "answers-1234"]} = 16%N
  ∧ setAuthToken (browser := character_quota 16) (JsString "")
      {["quiz" := "answers-1234"]}
    = (Throw QuotaExceededError, {["quiz" := "answers-1234"]}).
Proof.
  assert (used {["quiz" := "answers-1234"]} = 16%N) as Hfull
    by (vm_compute; reflexivity).
  split; [exact Hfull |].
  exact (proj1 (full_area_rejects_every_token 16 {["quiz" := "answers-1234"]} ""
                  Hfull eq_refl)).
Defined.
